(** * LLMs.txt generator: a shallow embedding of [src/app/page.tsx]

    The page component keeps five pieces of React state ([siteUrl],
    [contact], [settings], [generatedContent], [copied]), regenerates the
    directive text in an effect whenever one of the three inputs changes,
    and offers a clipboard copy.  This file embeds the string primitives
    the effect relies on ([trim], template concatenation, [join]), the
    catalog [llmList], the effect body, [toggleSetting], [handleCopy] and
    the event loop of the component, and proves the properties of the
    specification about them. *)

From Stdlib Require Import String Ascii NArith List Lia.
From stdpp Require Import gmap list fin_maps.
Import ListNotations.

(** ** JavaScript strings and the primitives used by the component *)

Module JS.

(** A JavaScript string is a sequence of UTF-16 code units. *)
Abbreviation code_unit := N (only parsing).
Abbreviation jsstring := (list N) (only parsing).

(** A string literal of the source, read code unit by code unit (the
    literals of the source are all ASCII). *)
Definition lit (s : string) : jsstring :=
  (fun a => N_of_ascii a) <$> list_ascii_of_string s.
Arguments lit s%_string.

Definition LF : code_unit := 10%N.

(** The separator of [lines.join("\n")]. *)
Definition newline : jsstring := [LF].

(** [WhiteSpace] and [LineTerminator] of ECMAScript, the code points
    that [String.prototype.trim] strips. *)
Definition is_white_space (c : code_unit) : bool :=
  (((9 <=? c) && (c <=? 13))         (* TAB, LF, VT, FF, CR *)
  || (c =? 32)                        (* SPACE *)
  || (c =? 160)                       (* NO-BREAK SPACE *)
  || (c =? 5760)                      (* U+1680 *)
  || ((8192 <=? c) && (c <=? 8202))   (* U+2000 .. U+200A *)
  || (c =? 8232) || (c =? 8233)       (* U+2028, U+2029 *)
  || (c =? 8239)                      (* U+202F *)
  || (c =? 8287)                      (* U+205F *)
  || (c =? 12288)                     (* U+3000 *)
  || (c =? 65279)                     (* U+FEFF *))%N.

Fixpoint trimStart (s : jsstring) : jsstring :=
  match s with
  | [] => []
  | c :: rest => if is_white_space c then trimStart rest else s
  end.

Definition trimEnd (s : jsstring) : jsstring :=
  reverse (trimStart (reverse s)).

(** [s.trim()] *)
Definition trim (s : jsstring) : jsstring := trimEnd (trimStart s).

(** Truthiness of a string: only the empty string is falsy. *)
Definition truthy_string (s : jsstring) : bool :=
  match s with [] => false | _ :: _ => true end.

(** [a || b] on strings. *)
Definition or_else (a b : jsstring) : jsstring :=
  if truthy_string a then a else b.

(** [ls.join(sep)] *)
Fixpoint join (sep : jsstring) (ls : list jsstring) : jsstring :=
  match ls with
  | [] => []
  | x :: rest =>
      match rest with
      | [] => x
      | _ :: _ => x ++ sep ++ join sep rest
      end
  end.

(** [text.split(sep)] for a one-unit separator: the lines of a text. *)
Fixpoint split_on (sep : code_unit) (s : jsstring) : list jsstring :=
  match s with
  | [] => [[]]
  | c :: rest =>
      if (c =? sep)%N then [] :: split_on sep rest
      else match split_on sep rest with
           | [] => [[c]]
           | l :: ls => (c :: l) :: ls
           end
  end.


(** [s.startsWith(p)] and [s.endsWith(p)] are stdpp's [prefix] and
    [suffix] on lists of code units. *)

(** Values a property read on a [Record<string, boolean>] can produce:
    an own boolean, a member inherited from [Object.prototype] (a
    function or an object), or [undefined]. *)
Inductive value : Type :=
| VUndefined
| VBool (b : bool)
| VInherited.

Definition truthy (v : value) : bool :=
  match v with
  | VUndefined => false
  | VBool b => b
  | VInherited => true
  end.

(** Property names every plain object inherits from [Object.prototype]. *)
Definition object_prototype_keys : list jsstring :=
  [ lit "constructor"; lit "hasOwnProperty"; lit "isPrototypeOf";
    lit "propertyIsEnumerable"; lit "toLocaleString"; lit "toString";
    lit "valueOf"; lit "__proto__"; lit "__defineGetter__";
    lit "__defineSetter__"; lit "__lookupGetter__"; lit "__lookupSetter__" ].

(** [o[k]] on a plain object whose own properties are the finite map [o]. *)
Definition get (o : gmap jsstring bool) (k : jsstring) : value :=
  match o !! k with
  | Some b => VBool b
  | None => if bool_decide (k ∈ object_prototype_keys) then VInherited
            else VUndefined
  end.

(** [Object.fromEntries(entries)]: later entries overwrite earlier ones. *)
Definition fromEntries (entries : list (jsstring * bool)) : gmap jsstring bool :=
  foldl (fun o e => <[e.1 := e.2]> o) ∅ entries.

End JS.

Import JS.

(** ** The catalog *)

Record llm := { name : jsstring; defaultAllow : bool }.

Definition llmList : list llm :=
  [ {| name := lit "OpenAI"; defaultAllow := true |};
    {| name := lit "Perplexity"; defaultAllow := true |};
    {| name := lit "ClaudeBot"; defaultAllow := false |};
    {| name := lit "Google-Extended"; defaultAllow := false |};
    {| name := lit "CCBot"; defaultAllow := false |} ].

(** ** The generator: the body of the effect *)

(** [lines.push(x)] *)
Definition push (lines : list jsstring) (x : jsstring) : list jsstring :=
  lines ++ [x].

(** The callback of [llmList.forEach], threading the [lines] array. *)
Definition forEach_body (settings : gmap jsstring bool)
    (lines : list jsstring) (entry : llm) : list jsstring :=
  let allow := get settings (name entry) in
  let lines := push lines (lit "") in
  let lines := push lines (lit "User-Agent: " ++ name entry) in
  push lines (if truthy allow then lit "Allow: /" else lit "Disallow: /").

(** The [lines] array when the effect reaches [lines.join]. *)
Definition generate_lines (siteUrl contact : jsstring)
    (settings : gmap jsstring bool) : list jsstring :=
  let lines := [] in
  let urlDisplay := or_else (trim siteUrl) (lit "your site") in
  let lines := push lines (lit "# LLMs.txt generated for " ++ urlDisplay) in
  let lines := push lines (lit "User-Agent: *") in
  let lines := push lines (lit "Disallow: /") in
  let lines := foldl (forEach_body settings) lines llmList in
  let contactTrim := trim contact in
  if truthy_string contactTrim
  then push (push lines (lit "")) (lit "# Contact: " ++ contactTrim)
  else lines.

(** The argument of [setGeneratedContent]. *)
Definition generate (siteUrl contact : jsstring)
    (settings : gmap jsstring bool) : jsstring :=
  join newline (generate_lines siteUrl contact settings).

(** The initial value of [settings]. *)
Definition initialSettings : gmap jsstring bool :=
  fromEntries ((fun e => (name e, defaultAllow e)) <$> llmList).

(** ** The component: React state, handlers and the event loop *)

Record State := mkState {
  siteUrl : jsstring;
  contact : jsstring;
  settings : gmap jsstring bool;
  generatedContent : jsstring;
  copied : bool
}.

(** The values of the five [useState] calls at the first render. *)
Definition initialState : State :=
  {| siteUrl := lit ""; contact := lit ""; settings := initialSettings;
     generatedContent := lit ""; copied := false |}.

(** The three dependencies of the effect. *)
Definition inputs (s : State) : jsstring * jsstring * gmap jsstring bool :=
  (siteUrl s, contact s, settings s).

(** The effect: [setGeneratedContent(lines.join("\n")); setCopied(false)]. *)
Definition effect (s : State) : State :=
  {| siteUrl := siteUrl s; contact := contact s; settings := settings s;
     generatedContent := generate (siteUrl s) (contact s) (settings s);
     copied := false |}.

Definition setSiteUrl (v : jsstring) (s : State) : State :=
  {| siteUrl := v; contact := contact s; settings := settings s;
     generatedContent := generatedContent s; copied := copied s |}.

Definition setContact (v : jsstring) (s : State) : State :=
  {| siteUrl := siteUrl s; contact := v; settings := settings s;
     generatedContent := generatedContent s; copied := copied s |}.

(** The updater passed to [setSettings]: [{ ...prev, [name]: !prev[name] }]. *)
Definition toggle (prev : gmap jsstring bool) (name : jsstring)
    : gmap jsstring bool :=
  <[name := negb (truthy (get prev name))]> prev.

Definition toggleSetting (name : jsstring) (s : State) : State :=
  {| siteUrl := siteUrl s; contact := contact s;
     settings := toggle (settings s) name;
     generatedContent := generatedContent s; copied := copied s |}.

(** What lies outside the React state: the system clipboard, the console,
    the files saved by the browser, and the number of clipboard writes the
    page has requested. *)
Abbreviation error := (list N) (only parsing).

Record World := mkWorld {
  clipboard : option jsstring;
  console : list error;
  downloads : list (jsstring * jsstring);
  writeText_calls : nat
}.

Definition initialWorld : World :=
  {| clipboard := None; console := []; downloads := []; writeText_calls := 0 |}.

(** A small state-and-exception monad for the handlers. *)
Module Handler.

Inductive completion (A : Type) : Type :=
| Normal (a : A)
| Throw (e : error).
Arguments Normal {A} a.
Arguments Throw {A} e.

Definition M (A : Type) : Type := State * World -> completion A * (State * World).

Definition ret {A} (a : A) : M A := fun c => (Normal a, c).

Definition bind {A B} (m : M A) (k : A -> M B) : M B :=
  fun c => match m c with
           | (Normal a, c') => k a c'
           | (Throw e, c') => (Throw e, c')
           end.

Definition throw {A} (e : error) : M A := fun c => (Throw e, c).

(** [try { body } catch (err) { handler }] *)
Definition try_catch {A} (body : M A) (handler : error -> M A) : M A :=
  fun c => match body c with
           | (Normal a, c') => (Normal a, c')
           | (Throw e, c') => handler e c'
           end.

Definition setCopied (b : bool) : M unit :=
  fun c => (Normal tt,
            ({| siteUrl := siteUrl c.1; contact := contact c.1;
                settings := settings c.1;
                generatedContent := generatedContent c.1; copied := b |},
             c.2)).

(** [console.error(err)] *)
Definition console_error (err : error) : M unit :=
  fun c => (Normal tt,
            (c.1, {| clipboard := clipboard c.2;
                     console := console c.2 ++ [err];
                     downloads := downloads c.2;
                     writeText_calls := writeText_calls c.2 |})).

(** [navigator.clipboard.writeText(text)] is called: one more request. *)
Definition writeText_call : M unit :=
  fun c => (Normal tt,
            (c.1, {| clipboard := clipboard c.2; console := console c.2;
                     downloads := downloads c.2;
                     writeText_calls := S (writeText_calls c.2) |})).

(** The awaited promise settles: it is fulfilled ([None]) and the
    clipboard holds [text], or it is rejected with an error, which
    [await] rethrows. *)
Definition writeText_await (text : jsstring) (outcome : option error) : M unit :=
  match outcome with
  | None =>
      fun c => (Normal tt,
                (c.1, {| clipboard := Some text; console := console c.2;
                         downloads := downloads c.2;
                         writeText_calls := writeText_calls c.2 |}))
  | Some err => throw err
  end.

End Handler.

Import Handler.

#[global] Instance M_ret : MRet M := @ret.
#[global] Instance M_bind : MBind M := fun A B k m => bind m k.

(** [handleCopy] from the point where the awaited promise settles: the
    rest of the [try] block, or the [catch] block. *)
Definition handleCopy_settled (text : jsstring) (outcome : option error) : M unit :=
  try_catch
    (writeText_await text outcome ;; setCopied true)
    (fun err => console_error err ;; setCopied false).

(** [handleCopy] run in one go, the promise settling with [outcome]; the
    text written is the [generatedContent] of the render that created the
    handler. *)
Definition handleCopy (outcome : option error) : M unit :=
  fun c => (writeText_call ;; handleCopy_settled (generatedContent c.1) outcome) c.

(** [handleDownload]: a file named [LLMs.txt] holding the generated text. *)
Definition handleDownload : M unit :=
  fun c => (Normal tt,
            (c.1, {| clipboard := clipboard c.2; console := console c.2;
                     downloads := downloads c.2
                                  ++ [(lit "LLMs.txt", generatedContent c.1)];
                     writeText_calls := writeText_calls c.2 |})).

(** *** The event loop *)

(** The component between two events: its React state, the world, and the
    clipboard writes still in flight, each with the text it was given. *)
Record App := mkApp {
  st : State;
  world : World;
  pending : list jsstring
}.

Inductive event : Type :=
| EvSiteUrl (v : jsstring)            (* onChange of the URL field *)
| EvContact (v : jsstring)            (* onChange of the contact field *)
| EvToggle (name : jsstring)          (* onChange of a checkbox *)
| EvCopyClick                         (* click on Copy, up to the await *)
| EvCopySettle (i : nat) (outcome : option error)
                                      (* the i-th pending write settles *)
| EvDownload.                         (* click on Download *)

(** React re-runs the effect after a state update exactly when one of
    its dependencies changed ([Object.is]): a string by value, the
    settings object by identity, and [toggleSetting] always builds a new
    object. *)
Definition rerender (changed : bool) (s : State) : State :=
  if changed then effect s else s.

Definition step (a : App) (e : event) : App :=
  match e with
  | EvSiteUrl v =>
      {| st := rerender (negb (bool_decide (v = siteUrl (st a))))
                 (setSiteUrl v (st a));
         world := world a; pending := pending a |}
  | EvContact v =>
      {| st := rerender (negb (bool_decide (v = contact (st a))))
                 (setContact v (st a));
         world := world a; pending := pending a |}
  | EvToggle name =>
      {| st := effect (toggleSetting name (st a));
         world := world a; pending := pending a |}
  | EvCopyClick =>
      let c := (writeText_call (st a, world a)).2 in
      {| st := c.1; world := c.2;
         pending := pending a ++ [generatedContent (st a)] |}
  | EvCopySettle i outcome =>
      match pending a !! i with
      | Some text =>
          let c := (handleCopy_settled text outcome (st a, world a)).2 in
          {| st := c.1; world := c.2; pending := delete i (pending a) |}
      | None => a
      end
  | EvDownload =>
      let c := (handleDownload (st a, world a)).2 in
      {| st := c.1; world := c.2; pending := pending a |}
  end.

(** The page after its first render and the mount run of the effect. *)
Definition mounted : App :=
  {| st := effect initialState; world := initialWorld; pending := [] |}.

Definition run (a : App) (evs : list event) : App := foldl step a evs.

(** ** The end-to-end example of the specification *)

Definition spec_example : jsstring := lit
"# LLMs.txt generated for your site
User-Agent: *
Disallow: /

User-Agent: OpenAI
Allow: /

User-Agent: Perplexity
Allow: /

User-Agent: ClaudeBot
Disallow: /

User-Agent: Google-Extended
Disallow: /

User-Agent: CCBot
Disallow: /".

(** ** Vocabulary of the statements *)

(** The header comment for a site URL. *)
Definition header_line (siteUrl : jsstring) : jsstring :=
  lit "# LLMs.txt generated for "
  ++ match trim siteUrl with [] => lit "your site" | t => t end.

(** The policy an agent has under a mapping, as the effect reads it. *)
Definition allowed (settings : gmap jsstring bool) (agent : jsstring) : bool :=
  truthy (get settings agent).

Definition policy_line (allow : bool) : jsstring :=
  if allow then lit "Allow: /" else lit "Disallow: /".

(** The three lines of one agent. *)
Definition agent_block (settings : gmap jsstring bool) (entry : llm)
    : list jsstring :=
  [ lit ""; lit "User-Agent: " ++ name entry;
    policy_line (allowed settings (name entry)) ].

(** The lines contributed by the contact field. *)
Definition contact_lines (contact : jsstring) : list jsstring :=
  match trim contact with
  | [] => []
  | t => [ lit ""; lit "# Contact: " ++ t ]
  end.

(** The same pieces as text, each line preceded by its separator. *)
Definition agent_text (settings : gmap jsstring bool) (entry : llm) : jsstring :=
  newline ++ newline ++ lit "User-Agent: " ++ name entry
  ++ newline ++ policy_line (allowed settings (name entry)).

Definition contact_text (contact : jsstring) : jsstring :=
  match trim contact with
  | [] => []
  | t => newline ++ newline ++ lit "# Contact: " ++ t
  end.


(** The lines of a text. *)
Definition text_lines (text : jsstring) : list jsstring := split_on LF text.

(** Everything the effect pushes before the contact lines. *)
Definition body_lines (siteUrl : jsstring) (settings : gmap jsstring bool)
    : list jsstring :=
  [ header_line siteUrl; lit "User-Agent: *"; lit "Disallow: /" ]
  ++ concat (agent_block settings <$> llmList).

(** [generatedContent] is the text of the current inputs. *)
Definition in_sync (s : State) : Prop :=
  generatedContent s = generate (siteUrl s) (contact s) (settings s).





(** ** The rendered page *)

(** One checkbox row of [llmList.map(...)]: the React key, the [checked]
    attribute, the agent name and the note in parentheses after it. *)
Record Checkbox := mkCheckbox {
  cb_key : jsstring;
  cb_checked : value;
  cb_name : jsstring;
  cb_note : jsstring
}.

(** The parts of the returned markup that depend on the state. *)
Record View := mkView {
  site_url_value : jsstring;
  checkboxes : list Checkbox;
  contact_value : jsstring;
  generated_value : jsstring;
  copy_label : jsstring;
  contact_href : jsstring
}.

Definition render_checkbox (settings : gmap jsstring bool) (entry : llm)
    : Checkbox :=
  {| cb_key := name entry;
     cb_checked := get settings (name entry);
     cb_name := name entry;
     cb_note := lit "(" ++ (if truthy (get settings (name entry))
                            then lit "Allow" else lit "Disallow")
                ++ lit ")" |}.

Definition render (s : State) : View :=
  {| site_url_value := siteUrl s;
     checkboxes := render_checkbox (settings s) <$> llmList;
     contact_value := contact s;
     generated_value := generatedContent s;
     copy_label := if copied s then lit "Copied!" else lit "Copy";
     contact_href :=
       if truthy_string (trim (contact s))
       then lit "mailto:" ++ trim (contact s)
       else lit "mailto:info@example.com" |}.

(** ** Statement vocabulary for the further properties *)

(** All units of a string are white space. *)
Definition blank (s : jsstring) : Prop :=
  Forall (fun c => is_white_space c = true) s.

(** What the header shows for a site URL. *)
Definition urlDisplay (siteUrl : jsstring) : jsstring :=
  or_else (trim siteUrl) (lit "your site").

(** Two mappings give every catalog agent the same policy. *)
Definition same_policies (m m' : gmap jsstring bool) : Prop :=
  Forall (fun e => allowed m (name e) = allowed m' (name e)) llmList.

(** How often [k] occurs in a history of toggled names. *)
Fixpoint toggles_of (k : jsstring) (history : list jsstring) : nat :=
  match history with
  | [] => 0
  | n :: rest => (if bool_decide (n = k) then 1 else 0) + toggles_of k rest
  end.

(** An event the rendered page can deliver: only the checkboxes of the
    catalog call [toggleSetting]. *)
Definition ui_event (e : event) : Prop :=
  match e with
  | EvToggle n => n ∈ name <$> llmList
  | _ => True
  end.

(** What the user does, when every clipboard write settles before the
    next event: a click on Copy is then [handleCopy] run in one go. *)
Inductive action : Type :=
| DoSiteUrl (v : jsstring)
| DoContact (v : jsstring)
| DoToggle (name : jsstring)
| DoCopy (outcome : option error)
| DoDownload.

Definition events_of (act : action) : list event :=
  match act with
  | DoSiteUrl v => [EvSiteUrl v]
  | DoContact v => [EvContact v]
  | DoToggle n => [EvToggle n]
  | DoCopy outcome => [EvCopyClick; EvCopySettle 0 outcome]
  | DoDownload => [EvDownload]
  end.

Definition perform (a : App) (acts : list action) : App :=
  run a (acts ≫= events_of).


(** The text [t] was the generated content at some point of the history. *)
Definition shown_during (evs : list event) (t : jsstring) : Prop :=
  exists pre post,
    evs = pre ++ post /\ generatedContent (st (run mounted pre)) = t.

(** ** The download handler against the document *)

(** [handleDownload] statement by statement, over the parts of the
    browser it touches: the elements created so far (a node is its
    index), the children of [document.body], the object URLs that were
    created and not revoked (a URL is its index), and the files the
    browser has saved. *)
Module Dom.

Record Blob := mkBlob { blob_parts : list jsstring; blob_type : jsstring }.

(** An [a] element: the object URL its [href] names and its [download]
    attribute. *)
Record Anchor := mkAnchor { href : option nat; download : option jsstring }.

Record Browser := mkBrowser {
  elements : list Anchor;
  body : list nat;
  object_urls : list Blob;
  saved : list (jsstring * Blob)
}.

(** [document.createElement("a")] *)
Definition createElement (b : Browser) : nat * Browser :=
  (length (elements b),
   {| elements := elements b ++ [ {| href := None; download := None |} ];
      body := body b; object_urls := object_urls b; saved := saved b |}).

(** [URL.createObjectURL(blob)] *)
Definition createObjectURL (blob : Blob) (b : Browser) : nat * Browser :=
  (length (object_urls b),
   {| elements := elements b; body := body b;
      object_urls := object_urls b ++ [blob]; saved := saved b |}).

(** [link.href = url] *)
Definition set_href (link url : nat) (b : Browser) : Browser :=
  {| elements := alter (fun a => {| href := Some url; download := download a |})
                   link (elements b);
     body := body b; object_urls := object_urls b; saved := saved b |}.

(** [link.download = file] *)
Definition set_download (link : nat) (file : jsstring) (b : Browser) : Browser :=
  {| elements := alter (fun a => {| href := href a; download := Some file |})
                   link (elements b);
     body := body b; object_urls := object_urls b; saved := saved b |}.

(** [document.body.appendChild(link)]: the node becomes the last child,
    leaving its old place if it was a child already. *)
Definition appendChild (link : nat) (b : Browser) : Browser :=
  {| elements := elements b;
     body := filter (fun n => n <> link) (body b) ++ [link];
     object_urls := object_urls b; saved := saved b |}.

(** [link.click()]: an anchor with a [download] attribute whose [href]
    names a live object URL makes the browser save that blob under that
    name. *)
Definition click (link : nat) (b : Browser) : Browser :=
  match elements b !! link with
  | Some {| href := Some url; download := Some file |} =>
      match object_urls b !! url with
      | Some blob =>
          {| elements := elements b; body := body b;
             object_urls := object_urls b;
             saved := saved b ++ [(file, blob)] |}
      | None => b
      end
  | _ => b
  end.

(** [document.body.removeChild(link)]: throws unless [link] is a child. *)
Definition removeChild (link : nat) (b : Browser) : option Browser :=
  if bool_decide (link ∈ body b)
  then Some {| elements := elements b;
               body := filter (fun n => n <> link) (body b);
               object_urls := object_urls b; saved := saved b |}
  else None.

Definition handleDownload (generatedContent : jsstring) (b : Browser)
    : option Browser :=
  let blob := {| blob_parts := [generatedContent];
                 blob_type := lit "text/plain" |} in
  let '(link, b) := createElement b in
  let '(url, b) := createObjectURL blob b in
  let b := set_href link url b in
  let b := set_download link (lit "LLMs.txt") b in
  let b := appendChild link b in
  let b := click link b in
  removeChild link b.



End Dom.

(** ** Lemmas on the string primitives *)

Section Strings.

Implicit Types (s t p : jsstring) (ls : list jsstring) (c : N).

Lemma join_cons_flat sep x ls :
  join sep (x :: ls) = x ++ concat ((fun l => sep ++ l) <$> ls).
Proof.
  revert x. induction ls as [|y ls IH]; intros x.
  - simpl. by rewrite app_nil_r.
  - change (join sep (x :: y :: ls)) with (x ++ sep ++ join sep (y :: ls)).
    rewrite IH. simpl. by rewrite <- !app_assoc.
Qed.

Lemma trimStart_head s c rest :
  trimStart s = c :: rest -> is_white_space c = false.
Proof.
  induction s as [|d s IH]; simpl; [done|].
  destruct (is_white_space d) eqn:Hd; [done|].
  intros [= <- _]. done.
Qed.

Lemma trimStart_suffix s : trimStart s `suffix_of` s.
Proof.
  induction s as [|d s IH]; simpl; [done|].
  destruct (is_white_space d); [|done].
  by apply suffix_cons_r.
Qed.

(** A trimmed string that is not empty ends in a unit that is not white
    space. *)
Lemma trim_last s c : last (trim s) = Some c -> is_white_space c = false.
Proof.
  unfold trim, trimEnd. intros H.
  destruct (trimStart (reverse (trimStart s))) as [|d r] eqn:E.
  - by rewrite reverse_nil in H.
  - rewrite reverse_cons, last_snoc in H. injection H as <-.
    by eapply trimStart_head.
Qed.

(** ... and starts with one. *)
Lemma trim_head s c rest : trim s = c :: rest -> is_white_space c = false.
Proof.
  unfold trim, trimEnd. intros H.
  destruct (trimStart s) as [|d r] eqn:E.
  - by rewrite reverse_nil in H.
  - pose proof (trimStart_head _ _ _ E) as Hd.
    destruct (trimStart_suffix (reverse (d :: r))) as [k Hk].
    apply (f_equal reverse) in Hk.
    rewrite reverse_involutive, reverse_app, H in Hk.
    injection Hk as -> _. done.
Qed.

Lemma split_on_no_sep c s : c ∉ s -> split_on c s = [s].
Proof.
  induction s as [|d s IH]; intros H; [done|].
  apply not_elem_of_cons in H as [Hd Hs]. simpl.
  destruct (N.eqb_spec d c) as [->|_]; [done|].
  by rewrite (IH Hs).
Qed.

Lemma split_on_app_sep c s rest :
  c ∉ s -> split_on c (s ++ c :: rest) = s :: split_on c rest.
Proof.
  induction s as [|d s IH]; intros H; simpl.
  - by rewrite N.eqb_refl.
  - apply not_elem_of_cons in H as [Hd Hs].
    destruct (N.eqb_spec d c) as [->|_]; [done|].
    by rewrite (IH Hs).
Qed.

(** Splitting undoes joining when no line contains the separator. *)
Lemma split_on_join c ls :
  ls <> [] -> Forall (fun l => c ∉ l) ls -> split_on c (join [c] ls) = ls.
Proof.
  induction ls as [|x ls IH]; intros Hne Hall; [done|].
  apply Forall_cons in Hall as [Hx Hls].
  destruct ls as [|y ls].
  - simpl. by apply split_on_no_sep.
  - change (join [c] (x :: y :: ls)) with (x ++ c :: join [c] (y :: ls)).
    rewrite split_on_app_sep by done. by rewrite IH.
Qed.


End Strings.

(** ** Substrings *)

Section Substrings.

Implicit Types (s t p a b : jsstring) (c x : N).









End Substrings.

(** ** The shape of the generated lines and text *)

Section Shape.

Implicit Types (siteUrl contact : jsstring) (settings : gmap jsstring bool).

Lemma forEach_body_block settings lines entry :
  forEach_body settings lines entry = lines ++ agent_block settings entry.
Proof.
  unfold forEach_body, push, agent_block, allowed, policy_line.
  by rewrite <- !app_assoc.
Qed.

Lemma forEach_blocks settings lines entries :
  foldl (forEach_body settings) lines entries
  = lines ++ concat (agent_block settings <$> entries).
Proof.
  revert lines. induction entries as [|e entries IH]; intros lines; simpl.
  - by rewrite app_nil_r.
  - rewrite IH, forEach_body_block. by rewrite <- app_assoc.
Qed.

(** The array built by the effect, as one expression. *)
Lemma generate_lines_shape siteUrl contact settings :
  generate_lines siteUrl contact settings
  = [ header_line siteUrl; lit "User-Agent: *"; lit "Disallow: /" ]
    ++ concat (agent_block settings <$> llmList)
    ++ contact_lines contact.
Proof.
  unfold generate_lines, contact_lines, header_line, or_else, push.
  rewrite forEach_blocks.
  destruct (trim siteUrl), (trim contact); simpl; by rewrite ?app_nil_r.
Qed.

Lemma concat_sep_blocks settings entries :
  concat ((fun l => newline ++ l) <$> concat (agent_block settings <$> entries))
  = concat (agent_text settings <$> entries).
Proof.
  induction entries as [|e entries IH]; [done|].
  rewrite !fmap_cons, !concat_cons, fmap_app, concat_app, IH.
  f_equal. unfold agent_text, agent_block. simpl.
  by rewrite app_nil_r.
Qed.

Lemma concat_sep_contact contact :
  concat ((fun l => newline ++ l) <$> contact_lines contact)
  = contact_text contact.
Proof.
  unfold contact_lines, contact_text.
  destruct (trim contact); simpl; by rewrite ?app_nil_r.
Qed.

(** The generated text, as one expression. *)
Lemma generate_shape siteUrl contact settings :
  generate siteUrl contact settings
  = header_line siteUrl
    ++ newline ++ lit "User-Agent: *" ++ newline ++ lit "Disallow: /"
    ++ concat (agent_text settings <$> llmList)
    ++ contact_text contact.
Proof.
  unfold generate. rewrite generate_lines_shape.
  change ([?a; ?b; ?c] ++ ?r) with (a :: b :: c :: r).
  rewrite join_cons_flat, !fmap_cons, fmap_app, !concat_cons, concat_app.
  rewrite concat_sep_blocks, concat_sep_contact.
  by rewrite <- !app_assoc.
Qed.

End Shape.

(** ** Lines of the generated text *)

Section Lines.

Implicit Types (siteUrl contact : jsstring) (settings : gmap jsstring bool).

Lemma lit_no_LF_header : LF ∉ lit "# LLMs.txt generated for ".
Proof. compute_done. Qed.

Lemma catalog_names_no_LF : Forall (fun e => LF ∉ name e) llmList.
Proof. compute_done. Qed.

Lemma policy_line_no_LF b : LF ∉ policy_line b.
Proof. destruct b; compute_done. Qed.

Lemma header_line_no_LF siteUrl : LF ∉ trim siteUrl -> LF ∉ header_line siteUrl.
Proof.
  intros H. unfold header_line. apply not_elem_of_app.
  split; [apply lit_no_LF_header|].
  destruct (trim siteUrl); [|done].
  compute_done.
Qed.

Lemma agent_block_no_LF settings e :
  LF ∉ name e -> Forall (fun l => LF ∉ l) (agent_block settings e).
Proof.
  intros H. unfold agent_block. repeat apply Forall_cons_2; [| | |done].
  - apply not_elem_of_nil.
  - apply not_elem_of_app. split; [|done].
    compute_done.
  - apply policy_line_no_LF.
Qed.

Lemma contact_lines_no_LF contact :
  LF ∉ trim contact -> Forall (fun l => LF ∉ l) (contact_lines contact).
Proof.
  intros H. unfold contact_lines.
  destruct (trim contact) as [|c r] eqn:E; [done|].
  repeat apply Forall_cons_2; [| |done].
  - apply not_elem_of_nil.
  - apply not_elem_of_app. split; [|done].
    compute_done.
Qed.

(** For single-line inputs the lines of the generated text are the
    entries of the array the effect built. *)
Lemma text_lines_generate siteUrl contact settings :
  LF ∉ trim siteUrl -> LF ∉ trim contact ->
  text_lines (generate siteUrl contact settings)
  = generate_lines siteUrl contact settings.
Proof.
  intros Hs Hc. unfold text_lines, generate.
  apply (split_on_join LF).
  - by rewrite generate_lines_shape.
  - rewrite generate_lines_shape.
    apply Forall_app. split.
    + repeat apply Forall_cons_2; [| | |done].
      * by apply header_line_no_LF.
      * compute_done.
      * compute_done.
    + apply Forall_app. split; [|by apply contact_lines_no_LF].
      apply Forall_concat, Forall_fmap.
      eapply Forall_impl; [apply catalog_names_no_LF|].
      intros e He. by apply agent_block_no_LF.
Qed.






Lemma generate_lines_body siteUrl contact settings :
  generate_lines siteUrl contact settings
  = body_lines siteUrl settings ++ contact_lines contact.
Proof. rewrite generate_lines_shape. unfold body_lines. by rewrite <- app_assoc. Qed.

End Lines.

(** ** Line breaks in the generated text *)

Section Newlines.

Implicit Types (siteUrl contact : jsstring) (settings : gmap jsstring bool).















End Newlines.

(** ** The generated content follows the inputs *)

Section Sync.

Lemma effect_in_sync s : in_sync (effect s).
Proof. reflexivity. Qed.

Lemma handleCopy_settled_state text outcome s w :
  let c := (handleCopy_settled text outcome (s, w)).2 in
  siteUrl c.1 = siteUrl s /\ contact c.1 = contact s
  /\ settings c.1 = settings s
  /\ generatedContent c.1 = generatedContent s
  /\ copied c.1 = bool_decide (outcome = None).
Proof. destruct outcome; simpl; done. Qed.

Lemma step_in_sync a e : in_sync (st a) -> in_sync (st (step a e)).
Proof.
  intros H. destruct e as [v|v|n| |i outcome| ]; simpl; try done.
  - unfold rerender. case_bool_decide as Hv; simpl; [|apply effect_in_sync].
    subst v. exact H.
  - unfold rerender. case_bool_decide as Hv; simpl; [|apply effect_in_sync].
    subst v. exact H.
  - destruct (pending a !! i) as [text|]; [|done].
    destruct (handleCopy_settled_state text outcome (st a) (world a))
      as (H1 & H2 & H3 & H4 & _).
    simpl in *. unfold in_sync. by rewrite H1, H2, H3, H4.
Qed.

Lemma run_in_sync a evs : in_sync (st a) -> in_sync (st (run a evs)).
Proof.
  revert a. induction evs as [|e evs IH]; intros a H; [done|].
  simpl. apply IH. by apply step_in_sync.
Qed.

Lemma reachable_in_sync evs : in_sync (st (run mounted evs)).
Proof. apply run_in_sync, effect_in_sync. Qed.

End Sync.

(** ** Toggling *)

Section Toggle.

Implicit Types (settings : gmap jsstring bool) (n k : jsstring).

Lemma toggle_lookup_same settings n :
  toggle settings n !! n = Some (negb (allowed settings n)).
Proof. unfold toggle, allowed. apply lookup_insert_eq. Qed.

Lemma toggle_lookup_other settings n k :
  k <> n -> toggle settings n !! k = settings !! k.
Proof. intros H. unfold toggle. by apply lookup_insert_ne. Qed.

Lemma allowed_toggle_same settings n :
  allowed (toggle settings n) n = negb (allowed settings n).
Proof. unfold allowed at 1, get. by rewrite toggle_lookup_same. Qed.

Lemma allowed_toggle_other settings n k :
  k <> n -> allowed (toggle settings n) k = allowed settings k.
Proof.
  intros H. unfold allowed, get. by rewrite toggle_lookup_other.
Qed.

Lemma agent_blocks_ext settings settings' (entries : list llm) :
  Forall (fun e => allowed settings (name e) = allowed settings' (name e))
    entries ->
  agent_block settings <$> entries = agent_block settings' <$> entries.
Proof.
  induction 1 as [|e l He _ IH]; [done|].
  rewrite !fmap_cons, IH. unfold agent_block. by rewrite He.
Qed.

(** The generated lines depend on the mapping only through the policies
    of the catalog agents. *)
Lemma generate_lines_ext siteUrl contact settings settings' :
  Forall (fun e => allowed settings (name e) = allowed settings' (name e))
    llmList ->
  generate_lines siteUrl contact settings
  = generate_lines siteUrl contact settings'.
Proof.
  intros H. rewrite !generate_lines_shape.
  by rewrite (agent_blocks_ext settings settings').
Qed.

Lemma toggle_twice_allowed settings n k :
  allowed (toggle (toggle settings n) n) k = allowed settings k.
Proof.
  destruct (decide (k = n)) as [->|Hk].
  - by rewrite !allowed_toggle_same, negb_involutive.
  - by rewrite !allowed_toggle_other.
Qed.

Lemma toggle_twice_stored settings n b :
  settings !! n = Some b -> toggle (toggle settings n) n = settings.
Proof.
  intros H. unfold toggle at 1.
  change (truthy (get (toggle settings n) n)) with (allowed (toggle settings n) n).
  rewrite allowed_toggle_same, negb_involutive.
  unfold toggle. rewrite insert_insert_eq.
  apply insert_id. unfold allowed, get. by rewrite H.
Qed.

Lemma catalog_names_distinct : NoDup (name <$> llmList).
Proof. compute_done. Qed.

Lemma catalog_names_not_inherited :
  Forall (fun e => name e ∉ object_prototype_keys) llmList.
Proof. compute_done. Qed.

End Toggle.

Section ToggleLines.

Implicit Types (siteUrl contact : jsstring) (settings : gmap jsstring bool).

Lemma join_middle sep (l1 : list jsstring) x l2 :
  join sep (l1 ++ x :: l2)
  = concat ((fun l => l ++ sep) <$> l1) ++ x
    ++ concat ((fun l => sep ++ l) <$> l2).
Proof.
  induction l1 as [|a l1 IH].
  - apply join_cons_flat.
  - rewrite fmap_cons, concat_cons, <- !app_assoc, <- IH.
    simpl. by destruct (l1 ++ x :: l2) eqn:E; [destruct l1|].
Qed.

Lemma policy_line_flip b : policy_line (negb b) <> policy_line b.
Proof. by destruct b. Qed.

(** Replacing one entry of the line array replaces that stretch of the
    text and nothing else. *)
Lemma join_insert (lines : list jsstring) j old new :
  lines !! j = Some old ->
  exists pre post,
    join newline lines = pre ++ old ++ post
    /\ join newline (<[j := new]> lines) = pre ++ new ++ post.
Proof.
  intros H.
  exists (concat ((fun l => l ++ newline) <$> take j lines)),
         (concat ((fun l => newline ++ l) <$> drop (S j) lines)).
  split.
  - rewrite <- join_middle. by rewrite take_drop_middle.
  - rewrite <- join_middle. rewrite insert_take_drop; [done|].
    by eapply lookup_lt_Some.
Qed.

Lemma toggle_catalog_lines siteUrl contact settings i entry :
  llmList !! i = Some entry ->
  generate_lines siteUrl contact settings !! (4 + 3 * i)
  = Some (lit "User-Agent: " ++ name entry)
  /\ generate_lines siteUrl contact settings !! (5 + 3 * i)
     = Some (policy_line (allowed settings (name entry)))
  /\ generate_lines siteUrl contact (toggle settings (name entry))
     = <[5 + 3 * i := policy_line (negb (allowed settings (name entry)))]>
         (generate_lines siteUrl contact settings).
Proof.
  intros H. rewrite !generate_lines_shape.
  destruct i as [|[|[|[|[|i]]]]]; [| | | | |done]; injection H as <-.
  all: split; [reflexivity|]; split; [reflexivity|].
  all: unfold llmList; rewrite !fmap_cons, !concat_cons; unfold agent_block.
  all: cbn [name fmap list_fmap concat app].
  all: rewrite allowed_toggle_same.
  all: rewrite !allowed_toggle_other by compute_done.
  all: reflexivity.
Qed.

End ToggleLines.

(** ** Copying and the event loop *)

Section Copy.

Implicit Types (s : State) (w : World) (a : App) (e : event).

Lemma run_snoc a evs e : run a (evs ++ [e]) = step (run a evs) e.
Proof. unfold run. by rewrite foldl_app. Qed.

Lemma run_app a evs evs' : run a (evs ++ evs') = run (run a evs) evs'.
Proof. unfold run. by rewrite foldl_app. Qed.

Lemma effect_copied s : copied (effect s) = false.
Proof. reflexivity. Qed.

(** A step that leaves [copied] set either is the successful end of a
    clipboard write or does not touch the React state at all. *)
Lemma step_copied a e :
  copied (st (step a e)) = true ->
  (exists i, e = EvCopySettle i None /\ is_Some (pending a !! i)
             /\ inputs (st (step a e)) = inputs (st a))
  \/ st (step a e) = st a.
Proof.
  destruct e as [v|v|n| |i outcome| ]; simpl.
  - unfold rerender. case_bool_decide as Hv; simpl; [|done].
    intros _. right. subst v. by destruct (st a).
  - unfold rerender. case_bool_decide as Hv; simpl; [|done].
    intros _. right. subst v. by destruct (st a).
  - done.
  - by right.
  - destruct (pending a !! i) as [text|] eqn:Hp; [|by right].
    destruct outcome as [err|]; simpl; [done|].
    intros _. left. exists i. by rewrite Hp.
  - by right.
Qed.

Lemma step_changes_inputs a e :
  inputs (st (step a e)) <> inputs (st a) -> copied (st (step a e)) = false.
Proof.
  intros H. destruct (copied (st (step a e))) eqn:Hc; [|done].
  exfalso. apply H.
  apply step_copied in Hc as [(i & _ & _ & Hin)|Hst]; [done|].
  by rewrite Hst.
Qed.

Lemma snoc_split {A} (l l1 l2 : list A) x :
  l ++ [x] = l1 ++ l2 ->
  (exists l2', l = l1 ++ l2') \/ (l1 = l ++ [x] /\ l2 = []).
Proof.
  destruct l2 as [|y l2 _] using rev_ind.
  - rewrite app_nil_r. intros <-. by right.
  - rewrite app_assoc. intros H. apply app_inj_tail in H as [-> _].
    left. by exists l2.
Qed.

Lemma copied_since_last_copy evs :
  copied (st (run mounted evs)) = true ->
  exists pre i post,
    evs = pre ++ EvCopySettle i None :: post
    /\ is_Some (pending (run mounted pre) !! i)
    /\ forall post1 post2,
         post = post1 ++ post2 ->
         inputs (st (run mounted (pre ++ EvCopySettle i None :: post1)))
         = inputs (st (run mounted pre)).
Proof.
  induction evs as [|e evs IH] using rev_ind; [done|].
  rewrite run_snoc. intros H.
  destruct (step_copied _ _ H) as [(i & -> & Hp & Hin)|Hst].
  - exists evs, i, []. split; [done|]. split; [done|].
    intros post1 post2 Hpost. symmetry in Hpost.
    apply app_eq_nil in Hpost as [-> _]. by rewrite run_snoc.
  - rewrite Hst in H. destruct (IH H) as (pre & i & post & -> & Hp & Hin).
    exists pre, i, (post ++ [e]). split; [by rewrite <- app_assoc|].
    split; [done|]. intros post1 post2 Hpost.
    apply snoc_split in Hpost as [[post2' ->]|[-> ->]]; [by eapply Hin|].
    rewrite app_comm_cons, app_assoc, run_snoc, Hst.
    apply (Hin post []). by rewrite app_nil_r.
Qed.

End Copy.

(** ** More on [trim] *)

Section Trim.

Implicit Types (s t a b : jsstring) (c x : N).

Lemma trimStart_decompose s :
  exists a, s = a ++ trimStart s /\ blank a.
Proof.
  induction s as [|c s (a & Ha & Hb)]; simpl.
  - exists []. split; [done|constructor].
  - destruct (is_white_space c) eqn:Hc.
    + exists (c :: a). split; [by rewrite <- app_comm_cons, <- Ha|].
      by apply Forall_cons_2.
    + exists []. split; [done|constructor].
Qed.

Lemma trimStart_blank a t : blank a -> trimStart (a ++ t) = trimStart t.
Proof.
  induction 1 as [|c a Hc _ IH]; [done|]. simpl. by rewrite Hc.
Qed.

Lemma trimStart_all_blank a : blank a -> trimStart a = [].
Proof.
  intros H. rewrite <- (app_nil_r a). by rewrite trimStart_blank.
Qed.

Lemma trimStart_keeps s c r : is_white_space c = false -> trimStart (c :: r) = c :: r.
Proof. intros H. simpl. by rewrite H. Qed.

Lemma trimStart_app_nonblank t b :
  trimStart t <> [] -> trimStart (t ++ b) = trimStart t ++ b.
Proof.
  induction t as [|c t IH]; [done|]. simpl.
  destruct (is_white_space c); [exact IH|done].
Qed.

Lemma blank_reverse a : blank a -> blank (reverse a).
Proof. unfold blank. by rewrite Forall_reverse. Qed.

Lemma blank_app a b : blank a -> blank b -> blank (a ++ b).
Proof. unfold blank. intros. by apply Forall_app. Qed.

Lemma trimEnd_decompose s :
  exists b, s = trimEnd s ++ b /\ blank b.
Proof.
  unfold trimEnd. destruct (trimStart_decompose (reverse s)) as (a & Ha & Hb).
  exists (reverse a). split; [|by apply blank_reverse].
  rewrite <- reverse_app, <- Ha. by rewrite reverse_involutive.
Qed.

Lemma trimEnd_blank t b : blank b -> trimEnd (t ++ b) = trimEnd t.
Proof.
  intros H. unfold trimEnd. rewrite reverse_app.
  by rewrite trimStart_blank by by apply blank_reverse.
Qed.

Lemma trimEnd_keeps t x :
  last t = Some x -> is_white_space x = false -> trimEnd t = t.
Proof.
  intros Hl Hx. apply last_Some in Hl as [t' ->].
  unfold trimEnd. rewrite reverse_snoc. simpl. rewrite Hx.
  by rewrite reverse_cons, reverse_involutive.
Qed.

(** [trim] cuts a blank prefix and a blank suffix off the string. *)
Lemma trim_decompose s :
  exists a b, s = a ++ trim s ++ b /\ blank a /\ blank b.
Proof.
  destruct (trimStart_decompose s) as (a & Ha & Hab).
  destruct (trimEnd_decompose (trimStart s)) as (b & Hb & Hbb).
  exists a, b. unfold trim. by rewrite <- Hb.
Qed.

Lemma trim_blank_around a t b :
  blank a -> blank b -> trim (a ++ t ++ b) = trim t.
Proof.
  intros Ha Hb. unfold trim. rewrite trimStart_blank by done.
  destruct (trimStart t) as [|c r] eqn:E.
  - destruct (trimStart_decompose t) as (w & Hw & Hwb).
    rewrite E, app_nil_r in Hw. subst w.
    by rewrite trimStart_all_blank by by apply blank_app.
  - rewrite trimStart_app_nonblank by by rewrite E.
    rewrite E. by apply trimEnd_blank.
Qed.

Lemma trim_idempotent s : trim (trim s) = trim s.
Proof.
  destruct (trim s) as [|c r] eqn:E; [done|].
  pose proof (trim_head s c r E) as Hc.
  unfold trim at 1. rewrite trimStart_keeps by done.
  destruct (last (c :: r)) as [x|] eqn:Hl.
  - apply (trimEnd_keeps _ x); [done|]. rewrite <- E in Hl.
    by apply (trim_last s).
  - by apply last_None in Hl.
Qed.

Lemma trim_blank s : blank s -> trim s = [].
Proof.
  intros H. unfold trim. by rewrite trimStart_all_blank.
Qed.

Lemma trim_nil_blank s : trim s = [] -> blank s.
Proof.
  intros H. destruct (trim_decompose s) as (a & b & Hs & Ha & Hb).
  rewrite H in Hs. rewrite Hs. by apply blank_app.
Qed.

End Trim.

(** ** What the generated text determines *)

Section Injective.

Implicit Types (siteUrl contact : jsstring) (settings : gmap jsstring bool).

Lemma generate_trim_eq siteUrl siteUrl' contact contact' settings :
  trim siteUrl = trim siteUrl' -> trim contact = trim contact' ->
  generate siteUrl contact settings = generate siteUrl' contact' settings.
Proof.
  intros Hs Hc. unfold generate, generate_lines. by rewrite Hs, Hc.
Qed.

Lemma policy_line_inj b b' r r' :
  policy_line b ++ r = policy_line b' ++ r' -> b = b' /\ r = r'.
Proof.
  destruct b, b'; intros H; try discriminate H.
  - split; [done|]. by apply app_inv_head in H.
  - split; [done|]. by apply app_inv_head in H.
Qed.

Lemma agents_text_inj settings settings' (entries : list llm) r r' :
  concat (agent_text settings <$> entries) ++ r
  = concat (agent_text settings' <$> entries) ++ r' ->
  Forall (fun e => allowed settings (name e) = allowed settings' (name e))
    entries
  /\ r = r'.
Proof.
  induction entries as [|e entries IH]; [done|].
  rewrite !fmap_cons, !concat_cons.
  unfold agent_text at 1 3. rewrite <- !app_assoc. intros H.
  do 5 apply app_inv_head in H.
  apply policy_line_inj in H as [Hb H].
  destruct (IH H) as [Hall Hr]. split; [|done]. by apply Forall_cons_2.
Qed.

Lemma contact_text_inj contact contact' :
  contact_text contact = contact_text contact' -> trim contact = trim contact'.
Proof.
  unfold contact_text.
  destruct (trim contact), (trim contact'); intros H; try discriminate H; [done|].
  by do 3 apply app_inv_head in H.
Qed.

Lemma header_line_urlDisplay siteUrl :
  header_line siteUrl = lit "# LLMs.txt generated for " ++ urlDisplay siteUrl.
Proof. unfold header_line, urlDisplay, or_else. by destruct (trim siteUrl). Qed.

End Injective.

Section SplitLines.

Implicit Types (s : jsstring) (c : N).

Lemma split_on_pieces c s : Forall (fun l => c ∉ l) (split_on c s).
Proof.
  induction s as [|d s IH]; simpl.
  - apply Forall_cons_2; [apply not_elem_of_nil|done].
  - destruct (N.eqb_spec d c) as [->|Hd].
    + apply Forall_cons_2; [apply not_elem_of_nil|done].
    + destruct (split_on c s) as [|l ls].
      * apply Forall_cons_2; [|done].
        apply not_elem_of_cons. split; [done|apply not_elem_of_nil].
      * apply Forall_cons in IH as [Hl Hls].
        apply Forall_cons_2; [|done]. by apply not_elem_of_cons.
Qed.

Lemma generate_lines_length siteUrl contact settings :
  length (generate_lines siteUrl contact settings)
  = match trim contact with [] => 18 | _ :: _ => 20 end.
Proof.
  rewrite generate_lines_shape, !length_app. unfold contact_lines.
  by destruct (trim contact).
Qed.

End SplitLines.

(** ** Histories of toggles *)

Section ToggleHistory.

Implicit Types (m : gmap jsstring bool) (n k : jsstring).

Lemma get_ext m m' k : m !! k = m' !! k -> get m k = get m' k.
Proof. intros H. unfold get. by rewrite H. Qed.

Lemma toggle_comm m n k :
  toggle (toggle m n) k = toggle (toggle m k) n.
Proof.
  destruct (decide (n = k)) as [->|Hne]; [done|].
  unfold toggle.
  rewrite (get_ext (<[n:=_]> m) m k) by by apply lookup_insert_ne.
  rewrite (get_ext (<[k:=_]> m) m n) by by apply lookup_insert_ne.
  by apply insert_insert_ne.
Qed.

Lemma toggle_history_perm m (h h' : list jsstring) :
  h ≡ₚ h' -> foldl toggle m h = foldl toggle m h'.
Proof.
  intros Hp. revert m.
  induction Hp as [|x l l' _ IH|x y l|l l' l'' _ IH1 _ IH2]; intros m; simpl.
  - done.
  - apply IH.
  - by rewrite toggle_comm.
  - by rewrite IH1.
Qed.

Lemma toggle_history_parity m (h : list jsstring) k :
  allowed (foldl toggle m h) k
  = xorb (allowed m k) (Nat.odd (toggles_of k h)).
Proof.
  revert m. induction h as [|n h IH]; intros m; simpl.
  - by rewrite xorb_false_r.
  - rewrite IH. case_bool_decide as Hn.
    + subst n. rewrite allowed_toggle_same.
      change (1 + toggles_of k h) with (S (toggles_of k h)).
      rewrite Nat.odd_succ, <- Nat.negb_odd.
      by destruct (allowed m k), (Nat.odd (toggles_of k h)).
    + by rewrite allowed_toggle_other.
Qed.

Lemma toggle_keys m n k :
  is_Some (toggle m n !! k) <-> k = n \/ is_Some (m !! k).
Proof.
  unfold toggle. destruct (decide (k = n)) as [->|Hne].
  - rewrite lookup_insert_eq. split; [by left|by eexists].
  - rewrite lookup_insert_ne by done.
    split; [by right|]. by intros [?|?].
Qed.

Lemma fromEntries_keys_from (entries : list (jsstring * bool))
    (acc : gmap jsstring bool) k :
  is_Some (foldl (fun o e => <[e.1 := e.2]> o) acc entries !! k)
  <-> k ∈ entries.*1 \/ is_Some (acc !! k).
Proof.
  revert acc. induction entries as [|[n b] entries IH]; intros acc; simpl.
  - split; [by right|]. intros [H|H]; [by apply elem_of_nil in H|done].
  - rewrite IH, elem_of_cons. destruct (decide (k = n)) as [->|Hne].
    + rewrite lookup_insert_eq. split; [intros _; by left; left|].
      intros _. right. by eexists.
    + rewrite lookup_insert_ne by done.
      split; [intros [?|?]; [by left; right|by right]|].
      intros [[?|?]|?]; [done|by left|by right].
Qed.

Lemma initialSettings_keys k :
  is_Some (initialSettings !! k) <-> k ∈ name <$> llmList.
Proof.
  unfold initialSettings, fromEntries. rewrite fromEntries_keys_from.
  rewrite <- list_fmap_compose, lookup_empty. split; [|by left].
  intros [H|H]; [done|]. by destruct H.
Qed.

End ToggleHistory.

(** ** What a step does to the settings *)

Section StepSettings.

Implicit Types (a : App) (e : event).

Lemma step_settings a e :
  settings (st (step a e))
  = match e with
    | EvToggle n => toggle (settings (st a)) n
    | _ => settings (st a)
    end.
Proof.
  destruct e as [v|v|n| |i outcome| ]; simpl; try done.
  - unfold rerender. by case_bool_decide.
  - unfold rerender. by case_bool_decide.
  - destruct (pending a !! i); [|done]. by destruct outcome.
Qed.

Lemma run_keeps_keys a evs k :
  is_Some (settings (st a) !! k) ->
  is_Some (settings (st (run a evs)) !! k).
Proof.
  revert a. induction evs as [|e evs IH]; intros a H; [done|].
  simpl. apply IH. rewrite step_settings.
  destruct e; try done. apply toggle_keys. by right.
Qed.

Lemma run_ui_keys a evs k :
  Forall ui_event evs ->
  (is_Some (settings (st a) !! k) <-> k ∈ name <$> llmList) ->
  (is_Some (settings (st (run a evs)) !! k) <-> k ∈ name <$> llmList).
Proof.
  intros Hall. revert a.
  induction Hall as [|e evs He _ IH]; intros a H; [done|].
  simpl. apply IH. rewrite step_settings.
  destruct e; try done. rewrite toggle_keys, H. simpl in He.
  split; [intros [->|?]; done|by right].
Qed.

End StepSettings.

(** ** The page and the clipboard *)

Section Clipboard.

Implicit Types (a : App) (e : event) (t : jsstring).

Lemma copy_in_one_go a outcome :
  pending a = [] ->
  let a' := run a (events_of (DoCopy outcome)) in
  (st a', world a') = (handleCopy outcome (st a, world a)).2
  /\ pending a' = [].
Proof.
  intros Hp. simpl. rewrite Hp. simpl. by destruct outcome.
Qed.

(** With no write in flight, the indicator vouches for the clipboard. *)
Definition settled (a : App) : Prop :=
  pending a = []
  /\ (copied (st a) = true
      -> clipboard (world a) = Some (generatedContent (st a))).

Lemma action_settled a act : settled a -> settled (run a (events_of act)).
Proof.
  intros [Hp Hc]. destruct act as [v|v|n|outcome| ]; simpl.
  - unfold rerender. case_bool_decide as Hv; simpl; [|by split].
    subst v. split; [done|]. by destruct (st a).
  - unfold rerender. case_bool_decide as Hv; simpl; [|by split].
    subst v. split; [done|]. by destruct (st a).
  - by split.
  - rewrite Hp. simpl. by destruct outcome.
  - by split.
Qed.

Lemma perform_settled a acts : settled a -> settled (perform a acts).
Proof.
  revert a. induction acts as [|act acts IH]; intros a H; [done|].
  unfold perform. rewrite bind_cons, run_app. apply IH.
  by apply action_settled.
Qed.

Lemma mounted_settled : settled mounted.
Proof. by split. Qed.

Lemma shown_during_snoc evs e t :
  shown_during evs t -> shown_during (evs ++ [e]) t.
Proof.
  intros (pre & post & -> & H). exists pre, (post ++ [e]).
  by rewrite <- app_assoc.
Qed.

Lemma shown_during_now evs :
  shown_during evs (generatedContent (st (run mounted evs))).
Proof. exists evs, []. by rewrite app_nil_r. Qed.

(** Whatever is on the clipboard or on its way there was shown. *)
Lemma clipboard_provenance evs t :
  let a := run mounted evs in
  clipboard (world a) = Some t \/ t ∈ pending a -> shown_during evs t.
Proof.
  simpl. revert t. induction evs as [|e evs IH] using rev_ind; intros t.
  - simpl. intros [H|H]; [done|by apply elem_of_nil in H].
  - rewrite run_snoc. intros H. apply shown_during_snoc.
    destruct e as [v|v|n| |i outcome| ]; simpl in H; try (by apply IH).
    + destruct H as [H|H]; [apply IH; by left|].
      apply elem_of_app in H as [H|H]; [apply IH; by right|].
      apply list_elem_of_singleton in H as ->. apply shown_during_now.
    + destruct (pending (run mounted evs) !! i) as [text|] eqn:Hp;
        [|by apply IH].
      destruct outcome as [err|]; simpl in H.
      * destruct H as [H|H]; [apply IH; by left|].
        apply IH. right. by eapply list_elem_of_delete_inv.
      * destruct H as [H|H].
        -- injection H as <-. apply IH. right.
           by eapply list_elem_of_lookup_2.
        -- apply IH. right. by eapply list_elem_of_delete_inv.
Qed.

Lemma copied_has_clipboard evs :
  let a := run mounted evs in
  copied (st a) = true -> is_Some (clipboard (world a)).
Proof.
  simpl. induction evs as [|e evs IH] using rev_ind; [done|].
  rewrite run_snoc.
  destruct e as [v|v|n| |i outcome| ]; simpl; try done.
  - unfold rerender. case_bool_decide as Hv; simpl; [|done]. apply IH.
  - unfold rerender. case_bool_decide as Hv; simpl; [|done]. apply IH.
  - destruct (pending (run mounted evs) !! i); [|done].
    destruct outcome; simpl; [done|]. by eexists.
Qed.






End Clipboard.

(** ** The download handler *)

Section Download.

Import Dom.







End Download.

(** ** Properties of the specification *)

(** C1: with an empty site URL, an empty contact and the catalog defaults
    (OpenAI and Perplexity allowed, ClaudeBot, Google-Extended and CCBot
    disallowed) the generator produces exactly the 18-line text of the
    end-to-end example: header, deny-all block, one block per agent in
    catalog order, blank separators, no contact line.  This is also the
    text the page shows once mounted. *)
Theorem C1_default_example :
  (fun e => (name e, initialSettings !! name e)) <$> llmList
  = [ (lit "OpenAI", Some true); (lit "Perplexity", Some true);
      (lit "ClaudeBot", Some false); (lit "Google-Extended", Some false);
      (lit "CCBot", Some false) ]
  /\ generate (lit "") (lit "") initialSettings = spec_example
  /\ generatedContent (st mounted) = spec_example
  /\ text_lines (generate (lit "") (lit "") initialSettings)
     = [ lit "# LLMs.txt generated for your site";
         lit "User-Agent: *"; lit "Disallow: /";
         lit ""; lit "User-Agent: OpenAI"; lit "Allow: /";
         lit ""; lit "User-Agent: Perplexity"; lit "Allow: /";
         lit ""; lit "User-Agent: ClaudeBot"; lit "Disallow: /";
         lit ""; lit "User-Agent: Google-Extended"; lit "Disallow: /";
         lit ""; lit "User-Agent: CCBot"; lit "Disallow: /" ]
  /\ length (text_lines (generate (lit "") (lit "") initialSettings)) = 18.
Proof. repeat split; vm_compute; reflexivity. Qed.

(** C2: for every site URL, contact and policy mapping the generated text
    begins with the line [# LLMs.txt generated for <t>], where [<t>] is the
    trimmed site URL, or [your site] when the trimmed site URL is empty,
    immediately followed by the lines [User-Agent: *] and [Disallow: /];
    these are the first three entries of the line array as well. *)
Theorem C2_header_and_deny_all
    (siteUrl contact : jsstring) (settings : gmap jsstring bool) :
  let t := trim siteUrl in
  let shown := match t with [] => lit "your site" | _ :: _ => t end in
  (lit "# LLMs.txt generated for " ++ shown ++ newline
   ++ lit "User-Agent: *" ++ newline
   ++ lit "Disallow: /" ++ newline)
    `prefix_of` generate siteUrl contact settings
  /\ take 3 (generate_lines siteUrl contact settings)
     = [ lit "# LLMs.txt generated for " ++ shown;
         lit "User-Agent: *"; lit "Disallow: /" ].
Proof.
  intros t shown. subst shown t. split.
  - rewrite generate_shape. unfold header_line.
    unfold llmList. rewrite fmap_cons, concat_cons. unfold agent_text at 1.
    destruct (trim siteUrl) as [|c r]; rewrite <- !app_assoc;
      repeat (apply prefix_app; try reflexivity);
      change newline with ([LF] ++ []) at 1; rewrite <- ?app_assoc;
      apply prefix_app, prefix_nil.
  - rewrite generate_lines_shape. simpl. unfold header_line.
    by destruct (trim siteUrl).
Qed.

Example C2_empty_site_url settings :
  take 1 (generate_lines (lit "") (lit "") settings)
  = [ lit "# LLMs.txt generated for your site" ].
Proof. reflexivity. Qed.

Example C2_given_site_url settings :
  take 1 (generate_lines (lit "https://x.com") (lit "") settings)
  = [ lit "# LLMs.txt generated for https://x.com" ].
Proof. reflexivity. Qed.

(** C3: for every policy mapping, and so in every state reached by any
    history of toggles and edits, the generated lines are the header and
    the deny-all block, then one block per catalog agent in the fixed
    catalog order (a blank line, [User-Agent: <name>], then [Allow: /] if
    the agent's current policy is allow and [Disallow: /] otherwise), then
    the contact lines; the order never depends on the mapping. *)
Theorem C3_agent_blocks_in_catalog_order
    (siteUrl contact : jsstring) (settings : gmap jsstring bool) :
  let block (entry : llm) :=
    [ lit ""; lit "User-Agent: " ++ name entry;
      if allowed settings (name entry) then lit "Allow: /"
      else lit "Disallow: /" ] in
  name <$> llmList
  = [ lit "OpenAI"; lit "Perplexity"; lit "ClaudeBot";
      lit "Google-Extended"; lit "CCBot" ]
  /\ generate_lines siteUrl contact settings
     = [ header_line siteUrl; lit "User-Agent: *"; lit "Disallow: /" ]
       ++ concat (block <$> llmList) ++ contact_lines contact
  /\ generate siteUrl contact settings
     = header_line siteUrl ++ newline ++ lit "User-Agent: *"
       ++ newline ++ lit "Disallow: /"
       ++ concat ((fun entry => newline ++ join newline (block entry))
                    <$> llmList)
       ++ contact_text contact
  /\ forall evs : list event,
       let s := st (run mounted evs) in
       let '(u, c, m) := inputs s in
       generatedContent s
       = join newline
           ([ header_line u; lit "User-Agent: *"; lit "Disallow: /" ]
            ++ concat (agent_block m <$> llmList) ++ contact_lines c).
Proof.
  intros block. split; [reflexivity|]. split; [apply generate_lines_shape|].
  split; [apply generate_shape|].
  intros evs s. unfold inputs.
  rewrite <- generate_lines_shape. apply reachable_in_sync.
Qed.







(** C6: for every policy mapping and every catalog agent name [n],
    toggling [n] leaves every other entry of the mapping as it was and
    negates the policy stored under [n]; in the regenerated line array
    only the [Allow: /] / [Disallow: /] entry of agent [n] is replaced (by
    the other of the two), every other entry is identical, and the text
    changes in that stretch only. *)
Theorem C6_toggle_changes_one_line
    (siteUrl contact : jsstring) (settings : gmap jsstring bool) (n : jsstring) :
  n ∈ name <$> llmList ->
  (forall k, k <> n -> toggle settings n !! k = settings !! k)
  /\ (forall b, settings !! n = Some b -> toggle settings n !! n = Some (negb b))
  /\ exists i,
       (name <$> llmList) !! i = Some n
       /\ generate_lines siteUrl contact settings !! (4 + 3 * i)
          = Some (lit "User-Agent: " ++ n)
       /\ generate_lines siteUrl contact settings !! (5 + 3 * i)
          = Some (policy_line (allowed settings n))
       /\ generate_lines siteUrl contact (toggle settings n)
          = <[5 + 3 * i := policy_line (negb (allowed settings n))]>
              (generate_lines siteUrl contact settings)
       /\ policy_line (negb (allowed settings n))
          <> policy_line (allowed settings n)
       /\ (forall j, j <> 5 + 3 * i ->
           generate_lines siteUrl contact (toggle settings n) !! j
           = generate_lines siteUrl contact settings !! j)
       /\ exists pre post,
            generate siteUrl contact settings
            = pre ++ policy_line (allowed settings n) ++ post
            /\ generate siteUrl contact (toggle settings n)
               = pre ++ policy_line (negb (allowed settings n)) ++ post.
Proof.
  intros Hn. split; [intros k Hk; by apply toggle_lookup_other|]. split.
  { intros b Hb. rewrite toggle_lookup_same. unfold allowed, get.
    by rewrite Hb. }
  apply list_elem_of_lookup in Hn as [i Hi]. exists i. split; [done|].
  rewrite list_lookup_fmap in Hi.
  destruct (llmList !! i) as [entry|] eqn:He; [|done].
  injection Hi as <-.
  destruct (toggle_catalog_lines siteUrl contact settings i entry He)
    as (H4 & H5 & Hins).
  split; [done|]. split; [done|]. split; [done|].
  split; [apply policy_line_flip|]. split.
  - intros j Hj. rewrite Hins. by apply list_lookup_insert_ne.
  - unfold generate. rewrite Hins. by apply join_insert.
Qed.

(** Toggling [ClaudeBot] from the defaults: only its policy line, entry
    11 of the array, becomes [Allow: /]. *)
Lemma C6_toggle_changes_one_line_witness :
  exists i,
    (name <$> llmList) !! i = Some (lit "ClaudeBot")
    /\ generate_lines (lit "") (lit "") (toggle initialSettings (lit "ClaudeBot"))
       = <[5 + 3 * i := lit "Allow: /"]>
           (generate_lines (lit "") (lit "") initialSettings).
Proof.
  destruct (C6_toggle_changes_one_line (lit "") (lit "") initialSettings
              (lit "ClaudeBot")) as (_ & _ & i & Hi & _ & _ & Hins & _).
  - compute_done.
  - exists i. split; [exact Hi|]. exact Hins.
Defined.

(** C7: for every policy mapping and every agent name [n], toggling [n]
    twice gives a mapping in which the policy of [n] is the original one,
    every other entry is untouched, and the generated lines and text are
    the original ones; when the mapping stores a boolean under [n], the
    mapping itself is the original one. *)
Theorem C7_double_toggle
    (siteUrl contact : jsstring) (settings : gmap jsstring bool) (n : jsstring) :
  allowed (toggle (toggle settings n) n) n = allowed settings n
  /\ toggle (toggle settings n) n !! n = Some (allowed settings n)
  /\ (forall k, k <> n -> toggle (toggle settings n) n !! k = settings !! k)
  /\ (forall b, settings !! n = Some b ->
      toggle (toggle settings n) n !! n = Some b
      /\ toggle (toggle settings n) n = settings)
  /\ generate_lines siteUrl contact (toggle (toggle settings n) n)
     = generate_lines siteUrl contact settings
  /\ generate siteUrl contact (toggle (toggle settings n) n)
     = generate siteUrl contact settings.
Proof.
  assert (Hlines : generate_lines siteUrl contact (toggle (toggle settings n) n)
                   = generate_lines siteUrl contact settings).
  { apply generate_lines_ext, Forall_forall. intros e _.
    apply toggle_twice_allowed. }
  split; [apply toggle_twice_allowed|]. split.
  { by rewrite toggle_lookup_same, allowed_toggle_same, negb_involutive. }
  split; [intros k Hk; by rewrite !toggle_lookup_other|]. split.
  { intros b Hb. rewrite (toggle_twice_stored settings n b Hb). done. }
  split; [exact Hlines|]. unfold generate. by rewrite Hlines.
Qed.

Lemma C7_double_toggle_witness :
  toggle (toggle initialSettings (lit "ClaudeBot")) (lit "ClaudeBot")
  = initialSettings.
Proof.
  apply (C7_double_toggle (lit "") (lit "") initialSettings (lit "ClaudeBot"))
    with (b := false).
  reflexivity.
Defined.

(** Without the [try]/[catch] a rejected write would escape the handler. *)
Example rejected_write_throws text err s w :
  ((writeText_call ;; writeText_await text (Some err) ;; setCopied true) (s, w)).1
  = Throw err.
Proof. reflexivity. Qed.

(** C8: the copy handler completes normally whether the clipboard write
    is fulfilled or rejected, and requests exactly one write.  On success
    [copied] becomes true and the clipboard holds the generated text; on
    failure the error is logged, the clipboard is untouched and [copied]
    is false.  In both cases the site URL, the contact, the policy mapping
    and the generated text are unchanged. *)
Theorem C8_copy_outcomes (outcome : option error) (s : State) (w : World) :
  let r := handleCopy outcome (s, w) in
  let s' := r.2.1 in
  let w' := r.2.2 in
  r.1 = Normal tt
  /\ siteUrl s' = siteUrl s /\ contact s' = contact s
  /\ settings s' = settings s /\ generatedContent s' = generatedContent s
  /\ writeText_calls w' = S (writeText_calls w)
  /\ downloads w' = downloads w
  /\ match outcome with
     | None =>
         copied s' = true
         /\ clipboard w' = Some (generatedContent s)
         /\ console w' = console w
     | Some err =>
         copied s' = false
         /\ clipboard w' = clipboard w
         /\ console w' = console w ++ [err]
     end.
Proof. destruct outcome; simpl; repeat split. Qed.

(** C9: every run of the effect clears [copied], and every step that
    changes the site URL, the contact or the policy mapping leaves
    [copied] false; so in every state reached from the mounted page,
    [copied] is true only if a clipboard write succeeded earlier and the
    three inputs have stayed what they were at that moment ever since. *)
Theorem C9_copied_cleared_by_edits :
  (forall s : State, copied (effect s) = false)
  /\ (forall (a : App) (e : event),
        inputs (st (step a e)) <> inputs (st a) ->
        copied (st (step a e)) = false)
  /\ (forall evs : list event,
        copied (st (run mounted evs)) = true ->
        exists pre i post,
          evs = pre ++ EvCopySettle i None :: post
          /\ is_Some (pending (run mounted pre) !! i)
          /\ forall post1 post2,
               post = post1 ++ post2 ->
               inputs (st (run mounted (pre ++ EvCopySettle i None :: post1)))
               = inputs (st (run mounted pre))).
Proof.
  split; [apply effect_copied|]. split; [apply step_changes_inputs|].
  apply copied_since_last_copy.
Qed.

(** A copy that succeeds sets the indicator; an edit of the site URL after
    it clears the indicator again. *)
Lemma C9_copied_cleared_by_edits_witness :
  copied (st (run mounted [EvCopyClick; EvCopySettle 0 None])) = true
  /\ copied (st (run mounted [EvCopyClick; EvCopySettle 0 None;
                              EvSiteUrl (lit "https://x.com")])) = false
  /\ exists pre i post,
       [EvCopyClick; EvCopySettle 0 None; EvDownload]
       = pre ++ EvCopySettle i None :: post
       /\ is_Some (pending (run mounted pre) !! i).
Proof.
  split; [vm_compute; reflexivity|]. split.
  - apply (proj1 (proj2 C9_copied_cleared_by_edits)
             (run mounted [EvCopyClick; EvCopySettle 0 None])
             (EvSiteUrl (lit "https://x.com"))).
    intros H. apply (f_equal (fun x => length x.1.1)) in H.
    vm_compute in H. discriminate H.
  - destruct (proj2 (proj2 C9_copied_cleared_by_edits)
                [EvCopyClick; EvCopySettle 0 None; EvDownload])
      as (pre & i & post & H1 & H2 & _); [vm_compute; reflexivity|].
    by exists pre, i, post.
Defined.

(** A write started before an edit and fulfilled after it still sets the
    indicator; the clipboard then holds the text of the click, not the
    regenerated one.  The indicator is cleared by the next edit. *)
Example late_settle_after_edit :
  let a := run mounted [EvCopyClick; EvSiteUrl (lit "https://x.com");
                        EvCopySettle 0 None] in
  copied (st a) = true
  /\ clipboard (world a) = Some spec_example
  /\ take 1 (text_lines (generatedContent (st a)))
     = [ lit "# LLMs.txt generated for https://x.com" ].
Proof. vm_compute. repeat split. Qed.

(** C10: the generator yields its lines for every policy mapping; for a
    catalog agent whose name the mapping lacks, the lookup yields
    [undefined], no allow value, and the agent's line is [Disallow: /]. *)
Theorem C10_missing_key_is_disallow
    (siteUrl contact : jsstring) (settings : gmap jsstring bool)
    (i : nat) (entry : llm) :
  llmList !! i = Some entry ->
  settings !! name entry = None ->
  get settings (name entry) = VUndefined
  /\ allowed settings (name entry) = false
  /\ generate_lines siteUrl contact settings !! (4 + 3 * i)
     = Some (lit "User-Agent: " ++ name entry)
  /\ generate_lines siteUrl contact settings !! (5 + 3 * i)
     = Some (lit "Disallow: /")
  /\ length (generate_lines siteUrl contact settings)
     = 18 + length (contact_lines contact)
  /\ generate siteUrl contact settings
     = join newline (generate_lines siteUrl contact settings).
Proof.
  intros He Hnone.
  assert (Hget : get settings (name entry) = VUndefined).
  { unfold get. rewrite Hnone.
    pose proof catalog_names_not_inherited as Hall.
    rewrite Forall_forall in Hall.
    rewrite bool_decide_eq_false_2; [done|].
    apply Hall. by eapply list_elem_of_lookup_2. }
  assert (Hallowed : allowed settings (name entry) = false)
    by (unfold allowed; by rewrite Hget).
  destruct (toggle_catalog_lines siteUrl contact settings i entry He)
    as (H4 & H5 & _).
  rewrite Hallowed in H5.
  repeat split; try done.
  rewrite generate_lines_shape. rewrite !length_app. reflexivity.
Qed.

(** With an empty mapping every agent is disallowed. *)
Lemma C10_missing_key_is_disallow_witness :
  get ∅ (lit "OpenAI") = VUndefined
  /\ generate_lines (lit "") (lit "") ∅ !! 5 = Some (lit "Disallow: /").
Proof.
  destruct (C10_missing_key_is_disallow (lit "") (lit "") ∅ 0
              {| name := lit "OpenAI"; defaultAllow := true |})
    as (H1 & _ & _ & H2 & _); [reflexivity|reflexivity|].
  split; [exact H1|exact H2].
Defined.

Example C10_empty_mapping :
  text_lines (generate (lit "") (lit "") ∅)
  = [ lit "# LLMs.txt generated for your site";
      lit "User-Agent: *"; lit "Disallow: /";
      lit ""; lit "User-Agent: OpenAI"; lit "Disallow: /";
      lit ""; lit "User-Agent: Perplexity"; lit "Disallow: /";
      lit ""; lit "User-Agent: ClaudeBot"; lit "Disallow: /";
      lit ""; lit "User-Agent: Google-Extended"; lit "Disallow: /";
      lit ""; lit "User-Agent: CCBot"; lit "Disallow: /" ].
Proof. vm_compute. reflexivity. Qed.

(** ** Further properties of the code *)

(** X1: white space around the site URL or around the contact never
    changes the generated text; in particular inputs made of white space
    only generate what empty inputs generate. *)
Theorem X1_surrounding_white_space_ignored
    (a b a' b' siteUrl contact : jsstring) (settings : gmap jsstring bool) :
  blank a -> blank b -> blank a' -> blank b' ->
  generate (a ++ siteUrl ++ b) (a' ++ contact ++ b') settings
  = generate siteUrl contact settings
  /\ generate a a' settings = generate (lit "") (lit "") settings.
Proof.
  intros Ha Hb Ha' Hb'. split.
  - apply generate_trim_eq; by apply trim_blank_around.
  - apply generate_trim_eq; by rewrite trim_blank.
Qed.

Lemma X1_surrounding_white_space_ignored_witness :
  generate (lit "  " ++ lit "https://x.com" ++ lit " ")
    (lit " " ++ lit "a@b.com" ++ lit "  ") initialSettings
  = generate (lit "https://x.com") (lit "a@b.com") initialSettings.
Proof.
  apply (X1_surrounding_white_space_ignored (lit "  ") (lit " ") (lit " ")
           (lit "  ") (lit "https://x.com") (lit "a@b.com") initialSettings);
    unfold blank; compute_done.
Defined.

(** X2: what the header and the contact line show is the input with a
    white-space prefix and a white-space suffix cut off and nothing else
    changed: the shown part begins and ends with a unit that is not white
    space, and trimming it again changes nothing. *)
Theorem X2_trim_keeps_the_core (input : jsstring) :
  (exists a b, input = a ++ trim input ++ b /\ blank a /\ blank b)
  /\ (forall c rest, trim input = c :: rest -> is_white_space c = false)
  /\ (forall c, last (trim input) = Some c -> is_white_space c = false)
  /\ trim (trim input) = trim input
  /\ (trim input = [] <-> blank input)
  /\ (forall contact settings,
      generate_lines input contact settings !! 0
      = Some (lit "# LLMs.txt generated for "
              ++ match trim input with [] => lit "your site" | t => t end))
  /\ (forall siteUrl settings,
      trim input <> [] ->
      last (generate_lines siteUrl input settings)
      = Some (lit "# Contact: " ++ trim input)).
Proof.
  split; [apply trim_decompose|]. split; [apply trim_head|].
  split; [apply trim_last|]. split; [apply trim_idempotent|].
  split; [split; [apply trim_nil_blank|apply trim_blank]|]. split.
  - intros contact settings. by rewrite generate_lines_shape.
  - intros siteUrl settings Hne. rewrite generate_lines_body.
    unfold contact_lines. destruct (trim input) as [|c r]; [done|].
    by rewrite last_app.
Qed.

Lemma X2_trim_keeps_the_core_witness :
  trim (lit "  https://x.com/a b  ") = lit "https://x.com/a b"
  /\ is_white_space 104 = false.
Proof.
  split; [vm_compute; reflexivity|].
  apply (proj1 (proj2 (X2_trim_keeps_the_core (lit "  https://x.com/a b  ")))
           104%N (lit "ttps://x.com/a b")).
  vm_compute. reflexivity.
Defined.

(** X3: for a fixed site URL, two runs of the generator give the same
    text exactly when the two mappings give every catalog agent the same
    policy and the two contacts have the same trimmed value: the policies
    and the contact can be read back from the text. *)
Theorem X3_text_determines_policies_and_contact
    (siteUrl contact contact' : jsstring) (settings settings' : gmap jsstring bool) :
  generate siteUrl contact settings = generate siteUrl contact' settings'
  <-> same_policies settings settings' /\ trim contact = trim contact'.
Proof.
  split.
  - rewrite !generate_shape. intros H.
    do 5 apply app_inv_head in H.
    apply agents_text_inj in H as [Hall Hc]. split; [done|].
    by apply contact_text_inj.
  - intros [Hall Hc]. unfold generate.
    rewrite (generate_lines_ext siteUrl contact settings settings' Hall).
    unfold generate_lines. by rewrite Hc.
Qed.

(** X4: for a fixed contact and mapping, two site URLs give the same text
    exactly when the header shows the same thing for both: the trimmed
    site URL, or [your site] when that is empty.  So the site URL
    [your site] and an empty one give the same text. *)
Theorem X4_text_determines_shown_site
    (siteUrl siteUrl' contact : jsstring) (settings : gmap jsstring bool) :
  (generate siteUrl contact settings = generate siteUrl' contact settings
   <-> urlDisplay siteUrl = urlDisplay siteUrl')
  /\ generate (lit "your site") contact settings
     = generate (lit "") contact settings.
Proof.
  assert (Hiff : forall u u',
    generate u contact settings = generate u' contact settings
    <-> urlDisplay u = urlDisplay u').
  { intros u u'. rewrite !generate_shape, !header_line_urlDisplay. split.
    - intros H. rewrite !app_assoc in H.
      repeat apply app_inv_tail in H. by apply app_inv_head in H.
    - by intros ->. }
  split; [apply Hiff|]. by apply Hiff.
Qed.

(** X5: splitting the generated text at its line breaks gives back the
    line array exactly when neither trimmed input contains a line break;
    the text then has 18 lines without a contact and 20 with one. *)
Theorem X5_lines_round_trip
    (siteUrl contact : jsstring) (settings : gmap jsstring bool) :
  (text_lines (generate siteUrl contact settings)
   = generate_lines siteUrl contact settings
   <-> (LF ∉ trim siteUrl) /\ (LF ∉ trim contact))
  /\ (LF ∉ trim siteUrl -> LF ∉ trim contact ->
      length (text_lines (generate siteUrl contact settings))
      = match trim contact with [] => 18 | _ :: _ => 20 end).
Proof.
  split.
  - split; [|intros [Hs Hc]; by apply text_lines_generate].
    intros H.
    pose proof (split_on_pieces LF (generate siteUrl contact settings)) as Hall.
    fold (text_lines (generate siteUrl contact settings)) in Hall.
    rewrite H, generate_lines_shape in Hall.
    apply Forall_app in Hall as [Hhead Hrest].
    apply Forall_app in Hrest as [_ Hcontact].
    apply Forall_cons in Hhead as [Hheader _]. split.
    + unfold header_line in Hheader. apply not_elem_of_app in Hheader as [_ Ht].
      destruct (trim siteUrl); [apply not_elem_of_nil|done].
    + unfold contact_lines in Hcontact.
      destruct (trim contact) as [|c r]; [apply not_elem_of_nil|].
      apply Forall_cons in Hcontact as [_ Hcontact].
      apply Forall_cons in Hcontact as [Hline _].
      by apply not_elem_of_app in Hline as [_ Ht].
  - intros Hs Hc. rewrite text_lines_generate by done.
    apply generate_lines_length.
Qed.

Lemma X5_lines_round_trip_witness :
  length (text_lines (generate (lit "https://x.com") (lit " a@b.com ")
                        initialSettings)) = 20.
Proof.
  apply (proj2 (X5_lines_round_trip (lit "https://x.com") (lit " a@b.com ")
                  initialSettings)); compute_done.
Defined.

(** X6: toggles commute, so a history of toggles leads to the same
    mapping, and the same generated text, in whatever order its toggles
    are applied. *)
Theorem X6_toggles_commute
    (settings : gmap jsstring bool) (n k : jsstring)
    (history history' : list jsstring) (siteUrl contact : jsstring) :
  toggle (toggle settings n) k = toggle (toggle settings k) n
  /\ (history ≡ₚ history' ->
      foldl toggle settings history = foldl toggle settings history'
      /\ generate siteUrl contact (foldl toggle settings history)
         = generate siteUrl contact (foldl toggle settings history')).
Proof.
  split; [apply toggle_comm|]. intros Hp.
  by rewrite (toggle_history_perm settings history history' Hp).
Qed.

Lemma X6_toggles_commute_witness :
  foldl toggle initialSettings [lit "CCBot"; lit "OpenAI"; lit "CCBot"]
  = foldl toggle initialSettings [lit "OpenAI"; lit "CCBot"; lit "CCBot"].
Proof.
  apply (X6_toggles_commute initialSettings (lit "") (lit "")
           [lit "CCBot"; lit "OpenAI"; lit "CCBot"]
           [lit "OpenAI"; lit "CCBot"; lit "CCBot"] (lit "") (lit "")).
  apply perm_swap.
Defined.

(** X7: after any history of toggles, the policy of an agent is its
    original policy if the agent was toggled an even number of times and
    the opposite policy if it was toggled an odd number of times; toggles
    of other agents do not count. *)
Theorem X7_toggle_parity
    (settings : gmap jsstring bool) (history : list jsstring) (k : jsstring) :
  allowed (foldl toggle settings history) k
  = xorb (allowed settings k) (Nat.odd (toggles_of k history)).
Proof. apply toggle_history_parity. Qed.

(** X8: toggling never removes a key and adds at most the toggled one.
    So in every state reached from the mounted page each catalog agent has
    a boolean stored under its name, and as long as only catalog
    checkboxes are toggled the mapping has exactly the catalog names as
    keys. *)
Theorem X8_settings_keys (evs : list event) :
  (forall m n k, is_Some (toggle m n !! k) <-> k = n \/ is_Some (m !! k))
  /\ (forall entry, entry ∈ llmList ->
      exists b, settings (st (run mounted evs)) !! name entry = Some b)
  /\ (Forall ui_event evs ->
      forall k, is_Some (settings (st (run mounted evs)) !! k)
                <-> k ∈ name <$> llmList).
Proof.
  split; [apply toggle_keys|]. split.
  - intros entry He.
    apply (run_keeps_keys mounted evs (name entry)).
    apply initialSettings_keys, list_elem_of_fmap. by exists entry.
  - intros Hall k. apply run_ui_keys; [done|]. apply initialSettings_keys.
Qed.

Lemma X8_settings_keys_witness :
  is_Some (settings (st (run mounted [EvToggle (lit "CCBot"); EvCopyClick]))
             !! lit "toString") <-> lit "toString" ∈ name <$> llmList.
Proof.
  apply (X8_settings_keys [EvToggle (lit "CCBot"); EvCopyClick]).
  repeat constructor.
Defined.

(** X9: in every state reached from the mounted page, the checkbox of
    each catalog agent is controlled by a stored boolean, and the note
    next to it says [Allow] exactly when the agent's line in the generated
    text, which is the text shown in the text area, is [Allow: /]. *)
Theorem X9_checkbox_matches_text (evs : list event) (i : nat) (entry : llm) :
  llmList !! i = Some entry ->
  let s := st (run mounted evs) in
  exists b : bool,
    checkboxes (render s) !! i
    = Some {| cb_key := name entry; cb_checked := VBool b;
              cb_name := name entry;
              cb_note := if b then lit "(Allow)" else lit "(Disallow)" |}
    /\ generate_lines (siteUrl s) (contact s) (settings s) !! (5 + 3 * i)
       = Some (if b then lit "Allow: /" else lit "Disallow: /")
    /\ generated_value (render s)
       = join newline (generate_lines (siteUrl s) (contact s) (settings s)).
Proof.
  intros He s.
  assert (Hin : entry ∈ llmList) by by eapply list_elem_of_lookup_2.
  destruct (run_keeps_keys mounted evs (name entry)) as [b Hb].
  { apply initialSettings_keys, list_elem_of_fmap. by exists entry. }
  fold s in Hb. exists b. split; [|split].
  - change (checkboxes (render s))
      with (render_checkbox (settings s) <$> llmList).
    rewrite list_lookup_fmap, He. simpl.
    unfold render_checkbox, get. rewrite Hb. by destruct b.
  - destruct (toggle_catalog_lines (siteUrl s) (contact s) (settings s)
                i entry He) as (_ & H5 & _).
    rewrite H5. unfold allowed, get. by rewrite Hb.
  - apply reachable_in_sync.
Qed.

Lemma X9_checkbox_matches_text_witness :
  exists b : bool,
    checkboxes (render (st (run mounted [EvToggle (lit "ClaudeBot")]))) !! 2
    = Some {| cb_key := lit "ClaudeBot"; cb_checked := VBool b;
              cb_name := lit "ClaudeBot";
              cb_note := if b then lit "(Allow)" else lit "(Disallow)" |}.
Proof.
  destruct (X9_checkbox_matches_text [EvToggle (lit "ClaudeBot")] 2
              {| name := lit "ClaudeBot"; defaultAllow := false |})
    as (b & Hb & _); [reflexivity|].
  by exists b.
Defined.

(** X10: the footer link always addresses someone: its target is
    [mailto:] followed by an address that is not empty and has no white
    space at either end, namely the trimmed contact, which is also the
    address of the [# Contact:] line, or [info@example.com] when the
    trimmed contact is empty and the text has no contact line. *)
Theorem X10_contact_link (s : State) :
  exists address,
    contact_href (render s) = lit "mailto:" ++ address
    /\ address <> []
    /\ (forall c rest, address = c :: rest -> is_white_space c = false)
    /\ (forall c, last address = Some c -> is_white_space c = false)
    /\ match trim (contact s) with
       | [] =>
           address = lit "info@example.com"
           /\ generate_lines (siteUrl s) (contact s) (settings s)
              = body_lines (siteUrl s) (settings s)
       | _ :: _ =>
           address = trim (contact s)
           /\ last (generate_lines (siteUrl s) (contact s) (settings s))
              = Some (lit "# Contact: " ++ address)
       end.
Proof.
  destruct (trim (contact s)) as [|c r] eqn:E.
  - exists (lit "info@example.com"). simpl. rewrite E. simpl.
    split; [done|]. split; [done|]. split.
    { intros c rest [= <- _]. reflexivity. }
    split.
    { intros c [= <-]. reflexivity. }
    split; [done|]. rewrite generate_lines_body. unfold contact_lines.
    by rewrite E, app_nil_r.
  - exists (c :: r). simpl. rewrite E. simpl.
    split; [done|]. split; [done|]. split.
    { intros c' rest Hc. rewrite <- E in Hc. by eapply trim_head. }
    split.
    { intros c' Hc. rewrite <- E in Hc. by eapply trim_last. }
    split; [done|]. rewrite generate_lines_body. unfold contact_lines.
    rewrite E. by rewrite last_app.
Qed.

(** X11: when every clipboard write settles before the next event, a
    click on Copy does what [handleCopy] does in one go, no write stays in
    flight, and whenever the button says [Copied!] the clipboard holds
    exactly the text shown in the text area. *)
Theorem X11_copied_vouches_for_clipboard (acts : list action) :
  let a := perform mounted acts in
  pending a = []
  /\ (copied (st a) = true ->
      clipboard (world a) = Some (generatedContent (st a)))
  /\ forall outcome,
       let a' := run a (events_of (DoCopy outcome)) in
       (st a', world a') = (handleCopy outcome (st a, world a)).2
       /\ pending a' = [].
Proof.
  intros a. destruct (perform_settled mounted acts mounted_settled) as [Hp Hc].
  split; [done|]. split; [done|]. intros outcome.
  by apply copy_in_one_go.
Qed.

Lemma X11_copied_vouches_for_clipboard_witness :
  clipboard (world (perform mounted [DoToggle (lit "CCBot"); DoCopy None]))
  = Some (generatedContent
            (st (perform mounted [DoToggle (lit "CCBot"); DoCopy None]))).
Proof.
  apply (X11_copied_vouches_for_clipboard
           [DoToggle (lit "CCBot"); DoCopy None]).
  vm_compute. reflexivity.
Defined.

(** X12: in every history, with writes settling at any time, the
    clipboard only ever receives a text that the page showed at some
    point of that history, and the button says [Copied!] only when the
    page has written to the clipboard. *)
Theorem X12_clipboard_provenance (evs : list event) :
  let a := run mounted evs in
  (forall t, clipboard (world a) = Some t -> shown_during evs t)
  /\ (forall t, t ∈ pending a -> shown_during evs t)
  /\ (copied (st a) = true -> exists t, clipboard (world a) = Some t).
Proof.
  intros a. split; [|split].
  - intros t H. apply clipboard_provenance. by left.
  - intros t H. apply clipboard_provenance. by right.
  - apply copied_has_clipboard.
Qed.

Lemma X12_clipboard_provenance_witness :
  shown_during
    [EvCopyClick; EvSiteUrl (lit "https://x.com"); EvCopySettle 0 None]
    spec_example.
Proof.
  apply (proj1 (X12_clipboard_provenance
           [EvCopyClick; EvSiteUrl (lit "https://x.com"); EvCopySettle 0 None])).
  vm_compute. reflexivity.
Defined.



(** X15: an edit that changes the raw site URL or contact but not its
    trimmed value regenerates the same text and still clears the copied
    indicator, leaving the clipboard as it is. *)
Theorem X15_blank_edit_clears_indicator (evs : list event) (v : jsstring) :
  let a := run mounted evs in
  (v <> siteUrl (st a) -> trim v = trim (siteUrl (st a)) ->
   generatedContent (st (step a (EvSiteUrl v))) = generatedContent (st a)
   /\ copied (st (step a (EvSiteUrl v))) = false
   /\ world (step a (EvSiteUrl v)) = world a)
  /\ (v <> contact (st a) -> trim v = trim (contact (st a)) ->
      generatedContent (st (step a (EvContact v))) = generatedContent (st a)
      /\ copied (st (step a (EvContact v))) = false
      /\ world (step a (EvContact v)) = world a).
Proof.
  intros a. pose proof (reachable_in_sync evs) as Hsync.
  unfold in_sync in Hsync. fold a in Hsync. split.
  - intros Hne Ht. simpl. rewrite bool_decide_eq_false_2 by done. simpl.
    split; [|done]. rewrite Hsync. by apply generate_trim_eq.
  - intros Hne Ht. simpl. rewrite bool_decide_eq_false_2 by done. simpl.
    split; [|done]. rewrite Hsync. by apply generate_trim_eq.
Qed.

Lemma X15_blank_edit_clears_indicator_witness :
  copied (st (run mounted [EvCopyClick; EvCopySettle 0 None])) = true
  /\ generatedContent
       (st (step (run mounted [EvCopyClick; EvCopySettle 0 None])
              (EvSiteUrl (lit " "))))
     = generatedContent (st (run mounted [EvCopyClick; EvCopySettle 0 None]))
  /\ copied
       (st (step (run mounted [EvCopyClick; EvCopySettle 0 None])
              (EvSiteUrl (lit " ")))) = false.
Proof.
  split; [vm_compute; reflexivity|].
  destruct (proj1 (X15_blank_edit_clears_indicator
                     [EvCopyClick; EvCopySettle 0 None] (lit " ")))
    as (H1 & H2 & _).
  - intros H. apply (f_equal length) in H. vm_compute in H. discriminate H.
  - vm_compute. reflexivity.
  - split; [exact H1|exact H2].
Defined.


